(** * Burnout calculator: the scoring core and UI state of
    src/components/BurnoutCalculator.tsx.

    A finite JavaScript [number] is an exact rational [Q]: every finite
    binary64 value is a rational.  The scorer is given twice: over exact
    rationals ([calculateRiskScore], the arithmetic the spec describes)
    and over binary64 ([calculateRiskScore64], each operation rounded as
    JavaScript rounds it).  Equality of numbers is numeric equality [==]
    (Qeq), as JavaScript's [===] on finite numbers. *)

From Stdlib Require Import QArith Qpower Qminmax Qround Qabs Lqa ZArith NArith String Ascii List Bool Lia.
Open Scope Q_scope.

(** ** Data model *)

(** [interface BurnoutInputs] *)
Record BurnoutInputs := mkInputs {
  hoursWorked : Q;
  sleepHours : Q;
  selfCareHours : Q
}.

(** [Math.max] and [Math.min] on non-NaN numbers. *)
Definition Math_max (a b : Q) : Q := if Qle_bool a b then b else a.
Definition Math_min (a b : Q) : Q := if Qle_bool a b then a else b.

(** [calculateRiskScore], with the [inputs] it closes over made explicit. *)
Definition calculateRiskScore (inputs : BurnoutInputs) : Q :=
  let workLoad := hoursWorked inputs / 40 in
  let sleepDeficit := (8 - sleepHours inputs) / 8 in
  let selfCareDeficit := (10 - selfCareHours inputs) / 10 in
  let score := (workLoad * 4 + sleepDeficit * 3 + selfCareDeficit * 3) / 10 in
  Math_min (Math_max score 0) 1 * 10.

(** The object [{ level, color }] returned by [getRiskLevel]. *)
Record RiskLevel := mkRiskLevel {
  level : string;
  color : string
}.

Definition getRiskLevel (score : Q) : RiskLevel :=
  if Qle_bool score 3 then mkRiskLevel "Low" "text-sage-500"
  else if Qle_bool score 6 then mkRiskLevel "Moderate" "text-orange-500"
  else mkRiskLevel "High" "text-red-500".

Definition getBurnoutWindow (score : Q) : string :=
  if Qle_bool score 3 then "Low risk - maintain current balance"
  else if Qle_bool score 6 then "4-8 weeks if patterns continue"
  else "2-4 weeks if patterns continue".

(** The three result strings of [getBurnoutWindow], indexed by the level
    name [getRiskLevel] gives the same score. *)
Definition window_of_level (l : string) : string :=
  if String.eqb l "Low" then "Low risk - maintain current balance"
  else if String.eqb l "Moderate" then "4-8 weeks if patterns continue"
  else "2-4 weeks if patterns continue".

(** ** Component state and event handlers *)

(** The [useState] cells of [BurnoutCalculator] that the handlers write:
    [inputs], [showResults] and [isOpen]. *)
Record UIState := mkUIState {
  inputs : BurnoutInputs;
  showResults : bool;
  isOpen : bool
}.

(** The literal passed to [useState] and to [setInputs] in [handleReset]. *)
Definition defaultInputs : BurnoutInputs := mkInputs 40 7 5.

Definition initialState : UIState := mkUIState defaultInputs false true.

Inductive Platform := X | LinkedIn | Download | Email.

(** Every callback the component hands to its children: the three
    [onValueChange] of the sliders (carrying [value[0]]), the two buttons,
    the [onOpenChange] of the [Collapsible] and the share buttons. *)
Inductive Event :=
| SlideHoursWorked (v : Q)
| SlideSleepHours (v : Q)
| SlideSelfCareHours (v : Q)
| Calculate
| Reset
| OpenChange (b : bool)
| Share (p : Platform).

Definition handleCalculate (st : UIState) : UIState :=
  mkUIState (inputs st) true false.

Definition handleReset (st : UIState) : UIState :=
  mkUIState (mkInputs 40 7 5) false true.

(** [(value) => !showResults && setInputs({ ...inputs, field: value[0] })] *)
Definition onValueChange (upd : BurnoutInputs -> BurnoutInputs) (st : UIState)
  : UIState :=
  if negb (showResults st) then mkUIState (upd (inputs st)) (showResults st) (isOpen st)
  else st.

(** Each event runs its handler; the state is then what React holds at the
    next render.  [handleShare] writes no state cell (it reads the score,
    renders an image and opens links).  Every handler is allowed in every
    state here, although the render offers "Calculate Risk" only when
    [showResults] is false and "Reset Calculator" only when it is true. *)
Definition handle (st : UIState) (e : Event) : UIState :=
  match e with
  | SlideHoursWorked v =>
      onValueChange (fun i => mkInputs v (sleepHours i) (selfCareHours i)) st
  | SlideSleepHours v =>
      onValueChange (fun i => mkInputs (hoursWorked i) v (selfCareHours i)) st
  | SlideSelfCareHours v =>
      onValueChange (fun i => mkInputs (hoursWorked i) (sleepHours i) v) st
  | Calculate => handleCalculate st
  | Reset => handleReset st
  | OpenChange b => mkUIState (inputs st) (showResults st) b
  | Share _ => st
  end.

Fixpoint run (st : UIState) (es : list Event) : UIState :=
  match es with
  | nil => st
  | cons e es' => run (handle st e) es'
  end.

(** The two UI modes, read off [showResults]. *)
Inductive Mode := Editing | Results.

Definition mode (st : UIState) : Mode :=
  if showResults st then Results else Editing.

(** The value a slider event carries for one field, if it is that
    field's slider. *)
Definition hoursOf (e : Event) : option Q :=
  match e with SlideHoursWorked v => Some v | _ => None end.

Definition sleepOf (e : Event) : option Q :=
  match e with SlideSleepHours v => Some v | _ => None end.

Definition selfCareOf (e : Event) : option Q :=
  match e with SlideSelfCareHours v => Some v | _ => None end.

(** The value of the last event of [es] selected by [sel], [d] if none. *)
Fixpoint lastValue (sel : Event -> option Q) (d : Q) (es : list Event) : Q :=
  match es with
  | nil => d
  | cons e es' => lastValue sel (match sel e with Some v => v | None => d end) es'
  end.

(** ** The scorer as the spec words it (Section 4.1), for comparison *)

(** Steps 1-5 of the spec: weighted sum over 10, clamped to [0, 1] with
    [Qmin]/[Qmax], times 10. *)
Definition riskScore_spec (h s c : Q) : Q :=
  let rawScore := ((h / 40) * 4 + ((8 - s) / 8) * 3 + ((10 - c) / 10) * 3) / 10 in
  Qmin (Qmax rawScore 0) 1 * 10.

(** The clamp-and-rescale step of [calculateRiskScore]. *)
Definition clamp10 (x : Q) : Q := Math_min (Math_max x 0) 1 * 10.

(** ** JavaScript numbers as IEEE 754 binary64 *)

(** The source computes with JavaScript numbers: every [/], [*], [+] and
    [-] rounds its exact result to the nearest binary64 value, ties to
    even, and gives an infinity on overflow.  A finite double is kept as
    its exact rational value; the sign of a zero is not kept (no division
    by a variable and no [Object.is] in the code makes it observable). *)

(** [2^z] as a rational, for any integer [z]. *)
Definition pow2 (z : Z) : Q := Qpower (2 # 1) z.

(** The exponent [e] with [2^e <= a < 2^(e+1)], for [a > 0]. *)
Definition floorLog2 (a : Q) : Z :=
  let k := (Z.log2 (Qnum a) - Z.log2 (Zpos (Qden a)))%Z in
  if Qle_bool (pow2 k) a then k else (k - 1)%Z.

(** Rounding of a rational to an integer, ties to even. *)
Definition rne (m : Q) : Z :=
  let f := Qfloor m in
  let fr := m - inject_Z f in
  if Qeq_bool fr (1 # 2) then (if Z.even f then f else (f + 1)%Z)
  else if Qle_bool fr (1 # 2) then f else (f + 1)%Z.

(** The exponent of the last mantissa bit of a binary64 value near [a]:
    53 significant bits, subnormals below [2^-1022]. *)
Definition quantum (a : Q) : Z := Z.max (floorLog2 a - 52) (-1074).

Definition roundPos (a : Q) : Q :=
  inject_Z (rne (a / pow2 (quantum a))) * pow2 (quantum a).

(** Round to nearest even with an unbounded exponent range. *)
Definition roundQ (x : Q) : Q :=
  if Qle_bool x 0 then (if Qle_bool 0 x then 0 else - roundPos (- x))
  else roundPos x.

(** [2^1024]: a rounded result this large overflows. *)
Definition overflowBound : Q := pow2 1024.

Inductive JSNum := Fin (q : Q) | PosInf | NegInf | NaN.

(** The result of an operation whose exact value is [x]. *)
Definition finRound (x : Q) : JSNum :=
  let r := roundQ x in
  if Qle_bool overflowBound (Qabs r) then (if Qle_bool 0 x then PosInf else NegInf)
  else Fin r.

(** A rational that is a finite binary64 value. *)
Definition isDouble (q : Q) : bool :=
  Qeq_bool (roundQ q) q && negb (Qle_bool overflowBound (Qabs q)).

Definition jsNeg (a : JSNum) : JSNum :=
  match a with
  | Fin x => Fin (- x) | PosInf => NegInf | NegInf => PosInf | NaN => NaN
  end.

Definition jsAdd (a b : JSNum) : JSNum :=
  match a, b with
  | NaN, _ | _, NaN => NaN
  | PosInf, NegInf | NegInf, PosInf => NaN
  | PosInf, _ | _, PosInf => PosInf
  | NegInf, _ | _, NegInf => NegInf
  | Fin x, Fin y => finRound (x + y)
  end.

Definition jsSub (a b : JSNum) : JSNum := jsAdd a (jsNeg b).

(** The infinity with the sign of a finite non-zero factor. *)
Definition infOfSign (pos : bool) : JSNum := if pos then PosInf else NegInf.

Definition jsMul (a b : JSNum) : JSNum :=
  match a, b with
  | NaN, _ | _, NaN => NaN
  | Fin x, Fin y => finRound (x * y)
  | Fin x, PosInf | PosInf, Fin x =>
      if Qeq_bool x 0 then NaN else infOfSign (Qle_bool 0 x)
  | Fin x, NegInf | NegInf, Fin x =>
      if Qeq_bool x 0 then NaN else infOfSign (negb (Qle_bool 0 x))
  | PosInf, PosInf | NegInf, NegInf => PosInf
  | PosInf, NegInf | NegInf, PosInf => NegInf
  end.

(** Division; a zero divisor is taken as [+0] (the code only divides by
    40, 8 and 10). *)
Definition jsDiv (a b : JSNum) : JSNum :=
  match a, b with
  | NaN, _ | _, NaN => NaN
  | Fin x, Fin y =>
      if Qeq_bool y 0 then (if Qeq_bool x 0 then NaN else infOfSign (Qle_bool 0 x))
      else finRound (x / y)
  | Fin _, _ => Fin 0
  | PosInf, Fin y => infOfSign (Qle_bool 0 y)
  | NegInf, Fin y => infOfSign (negb (Qle_bool 0 y))
  | _, _ => NaN
  end.

(** [a <= b] on numbers: false when either is NaN. *)
Definition jsLe (a b : JSNum) : bool :=
  match a, b with
  | NaN, _ | _, NaN => false
  | NegInf, _ | _, PosInf => true
  | PosInf, _ | _, NegInf => false
  | Fin x, Fin y => Qle_bool x y
  end.

(** [Math.max] and [Math.min] of two numbers: NaN if either is NaN. *)
Definition Math_max64 (a b : JSNum) : JSNum :=
  match a, b with
  | NaN, _ | _, NaN => NaN
  | _, _ => if jsLe a b then b else a
  end.

Definition Math_min64 (a b : JSNum) : JSNum :=
  match a, b with
  | NaN, _ | _, NaN => NaN
  | _, _ => if jsLe a b then a else b
  end.

(** [calculateRiskScore] as the code runs it, on JavaScript numbers: the
    inputs are the three fields, the operations associate as written
    ([a*4 + b*3 + c*3] is [(a*4 + b*3) + c*3]). *)
Definition calculateRiskScore64 (inputs : BurnoutInputs) : JSNum :=
  let workLoad := jsDiv (Fin (hoursWorked inputs)) (Fin 40) in
  let sleepDeficit := jsDiv (jsSub (Fin 8) (Fin (sleepHours inputs))) (Fin 8) in
  let selfCareDeficit := jsDiv (jsSub (Fin 10) (Fin (selfCareHours inputs))) (Fin 10) in
  let score := jsDiv (jsAdd (jsAdd (jsMul workLoad (Fin 4)) (jsMul sleepDeficit (Fin 3)))
                            (jsMul selfCareDeficit (Fin 3))) (Fin 10) in
  jsMul (Math_min64 (Math_max64 score (Fin 0)) (Fin 1)) (Fin 10).

(** The largest finite binary64 value, [(2^53 - 1) * 2^971]. *)
Definition maxDouble : Q := (pow2 53 - 1) * pow2 971.

(** The value [calculateRiskScore64] computes when no operation
    overflows: the operations of the source in their order, each result
    rounded to binary64 once ([8 - x] is [8 + -x]). *)
Definition rawScore64 (inputs : BurnoutInputs) : Q :=
  let workLoad := roundQ (hoursWorked inputs / 40) in
  let sleepDeficit := roundQ (roundQ (8 + - sleepHours inputs) / 8) in
  let selfCareDeficit := roundQ (roundQ (10 + - selfCareHours inputs) / 10) in
  roundQ (roundQ (roundQ (roundQ (workLoad * 4) + roundQ (sleepDeficit * 3))
                  + roundQ (selfCareDeficit * 3)) / 10).

Definition score64 (inputs : BurnoutInputs) : Q := roundQ (clamp10 (rawScore64 inputs)).

(** ** [score.toFixed(1)] *)

(** Decimal digits of a [Decimal.uint], most significant first. *)
Fixpoint string_of_uint (d : Decimal.uint) : string :=
  match d with
  | Decimal.Nil => EmptyString
  | Decimal.D0 d => String "0" (string_of_uint d)
  | Decimal.D1 d => String "1" (string_of_uint d)
  | Decimal.D2 d => String "2" (string_of_uint d)
  | Decimal.D3 d => String "3" (string_of_uint d)
  | Decimal.D4 d => String "4" (string_of_uint d)
  | Decimal.D5 d => String "5" (string_of_uint d)
  | Decimal.D6 d => String "6" (string_of_uint d)
  | Decimal.D7 d => String "7" (string_of_uint d)
  | Decimal.D8 d => String "8" (string_of_uint d)
  | Decimal.D9 d => String "9" (string_of_uint d)
  end.

(** Steps 10.b-10.d of [Number.prototype.toFixed] with [f = 1]: the
    digits [m] of [n] ("0" when [n = 0]), left-padded with zeros to
    [f + 1] digits, with a "." before the last [f] of them. *)
Definition fixed1OfZ (n : Z) : string :=
  let m := string_of_uint (N.to_uint (Z.to_N n)) in
  let m := if Nat.leb (String.length m) 1 then ("0" ++ m)%string else m in
  let k := String.length m in
  (substring 0 (k - 1) m ++ "." ++ substring (k - 1) 1 m)%string.

(** [x.toFixed(1)] on a finite [x]: a "-" and [-x] when [x < 0]; for
    [x < 10^21], [n] is the integer nearest [10 x], the larger one on a
    tie, i.e. [floor (10 x + 1/2)].  The [x >= 10^21] branch (which calls
    [ToString]) is not modelled and gives [None]. *)
Definition toFixed1 (x : Q) : option string :=
  let '(sgn, y) := if Qle_bool 0 x then (EmptyString, x) else ("-"%string, - x) in
  if Qle_bool (inject_Z (10 ^ 21)) y then None
  else Some (sgn ++ fixed1OfZ (Qfloor (y * 10 + (1 # 2))))%string.

(** The value of a string of decimal digits with one "." in it, read
    back as a number with one decimal: the digits make [n], the value is
    [n / 10].  Used to state what [toFixed1] displays. *)
Fixpoint digitsValue (s : string) (acc : Z) : Z :=
  match s with
  | EmptyString => acc
  | String c s' =>
      let d := nat_of_ascii c in
      if Nat.leb 48 d && Nat.leb d 57
      then digitsValue s' (acc * 10 + Z.of_nat (d - 48))%Z
      else digitsValue s' acc
  end.

Definition readFixed1 (s : string) : Q := inject_Z (digitsValue s 0) / 10.

(** The well-formedness of [fixed1OfZ k] checked for one [k]. *)
Definition fixed1Check (k : nat) : bool :=
  let s := fixed1OfZ (Z.of_nat k) in
  (Nat.eqb (String.length s) 3 || Nat.eqb (String.length s) 4)
  && (match String.get (String.length s - 2) s with
      | Some c => Ascii.eqb c "."
      | None => false
      end)
  && Qeq_bool (readFixed1 s) (inject_Z (Z.of_nat k) / 10).

(** ** Share links built by [handleShare] *)

(** [encodeURIComponent] on a string of code points 0-255 (one Rocq
    [ascii] per UTF-16 code unit): the unreserved characters
    [A-Z a-z 0-9 - _ . ! ~ * ' ( )] are kept, every other code point is
    written as the %XX escapes (upper-case hex) of its UTF-8 bytes: one
    byte below 128, two bytes [110xxxxx 10xxxxxx] from 128 to 255. *)
Definition hexDigit (n : nat) : ascii :=
  nth n (list_ascii_of_string "0123456789ABCDEF") "0"%char.

Definition pct (n : nat) : string :=
  String "%" (String (hexDigit (Nat.div n 16)) (String (hexDigit (Nat.modulo n 16)) EmptyString)).

Definition isUnreserved (c : ascii) : bool :=
  let n := nat_of_ascii c in
  (Nat.leb 48 n && Nat.leb n 57) || (Nat.leb 65 n && Nat.leb n 90)
  || (Nat.leb 97 n && Nat.leb n 122)
  || existsb (Ascii.eqb c) (list_ascii_of_string "-_.!~*'()").

Definition encodeChar (c : ascii) : string :=
  if isUnreserved c then String c EmptyString
  else
    let n := nat_of_ascii c in
    if Nat.ltb n 128 then pct n
    else pct (192 + Nat.div n 64)%nat ++ pct (128 + Nat.modulo n 64)%nat.

Fixpoint encodeURIComponent (s : string) : string :=
  match s with
  | EmptyString => EmptyString
  | String c s' => encodeChar c ++ encodeURIComponent s'
  end.

Definition newline : string := String (ascii_of_nat 10) EmptyString.

(** The [window.open] target of [case 'x']. *)
Definition xShareUrl (text url : string) : string :=
  "https://twitter.com/intent/tweet?text=" ++ encodeURIComponent text
  ++ "&url=" ++ encodeURIComponent url.

(** The [window.open] target of [case 'linkedin']. *)
Definition linkedinShareUrl (text url : string) : string :=
  "https://www.linkedin.com/sharing/share-offsite/?url=" ++ encodeURIComponent url
  ++ "&summary=" ++ encodeURIComponent text.

(** The [window.location.href] written by [case 'email']. *)
Definition mailtoUrl (text url : string) : string :=
  let subject := encodeURIComponent "My Burnout Risk Assessment Results" in
  let body := encodeURIComponent
                (text ++ newline ++ newline ++ "Try the calculator yourself at: " ++ url) in
  "mailto:?subject=" ++ subject ++ "&body=" ++ body.

(** Occurrences of a character in a string. *)
Fixpoint countChar (a : ascii) (s : string) : nat :=
  match s with
  | EmptyString => 0
  | String c s' => (if Ascii.eqb c a then 1 else 0) + countChar a s'
  end%nat.

(** Characters [encodeURIComponent] may emit. *)
Definition uriSafe (c : ascii) : bool := isUnreserved c || Ascii.eqb c "%".

(** A reader of one escape or plain character, inverse to [encodeChar];
    used to show that the encoding loses nothing. *)
Definition hexVal (h : ascii) : nat :=
  let n := nat_of_ascii h in if Nat.leb n 57 then (n - 48)%nat else (n - 55)%nat.

Definition decodeChar (s : string) : option (ascii * string) :=
  match s with
  | String c r =>
      if Ascii.eqb c "%" then
        match r with
        | String h1 (String h2 r') =>
            let b1 := hexVal h1 * 16 + hexVal h2 in
            if Nat.ltb b1 128 then Some (ascii_of_nat b1, r')
            else match r' with
                 | String _ (String h3 (String h4 r'')) =>
                     let b2 := hexVal h3 * 16 + hexVal h4 in
                     Some (ascii_of_nat ((b1 - 192) * 64 + (b2 - 128)), r'')
                 | _ => None
                 end
        | _ => None
        end
      else Some (c, r)
  | EmptyString => None
  end%nat.

(** ** [handleShare] *)

(** The text both social links and the mail body carry. *)
Definition shareText (lvl scoreStr : string) : string :=
  "I just checked my burnout risk level using the Burnout Calculator. My risk level is "
  ++ lvl ++ " (" ++ scoreStr ++ "/10). Check yours too!".

(** What [handleShare] does to the outside world, in order. *)
Inductive ShareEffect :=
| OpenWindow (url target : string)
| SetLocation (url : string)
| ClickDownload (filename href : string)
| ShowToast (title description : string).

(** The three ways the image step can go: [exportRef.current] is null,
    [html2canvas] resolves and [toDataURL] gives a URL, or it rejects. *)
Inductive ImageOutcome := NoExportRef | Rendered (dataUrl : string) | RenderFailed.

Definition errorToast : ShareEffect :=
  ShowToast "Error generating image" "There was an error creating the share image".

(** The [let imageUrl = ''; if (exportRef.current) { try ... catch ... }]
    block: the value of [imageUrl] and the toasts shown. *)
Definition renderImage (img : ImageOutcome) : string * list ShareEffect :=
  match img with
  | NoExportRef => (EmptyString, nil)
  | Rendered d => (d, nil)
  | RenderFailed => (EmptyString, cons errorToast nil)
  end.

(** [handleShare(platform)] in state [st], with [href] for
    [window.location.href].  [score.toFixed(1)] is always defined on a
    score (see [displayed_score_format]); the [None] branch is never
    taken. *)
Definition handleShare (st : UIState) (platform : Platform) (img : ImageOutcome)
  (href : string) : list ShareEffect :=
  let score := calculateRiskScore (inputs st) in
  let lvl := level (getRiskLevel score) in
  let text := shareText lvl (match toFixed1 score with Some t => t | None => EmptyString end) in
  let '(imageUrl, toasts) := renderImage img in
  (toasts ++
   match platform with
   | X => cons (OpenWindow (xShareUrl text href) "_blank") nil
   | LinkedIn => cons (OpenWindow (linkedinShareUrl text href) "_blank") nil
   | Download =>
       if String.eqb imageUrl EmptyString then nil
       else cons (ClickDownload "burnout-assessment.png" imageUrl)
              (cons (ShowToast "Download started"
                       "Your assessment has been downloaded as a PNG file") nil)
   | Email => cons (SetLocation (mailtoUrl text href)) nil
   end)%list.

(** ** What the component renders *)

(** The parts of the JSX whose presence depends on state. *)
Inductive Control :=
| SliderPanel      (* the [CollapsibleContent], mounted while [isOpen] *)
| ReassessHint     (* "Ready to reassess?", shown when [!isOpen] *)
| CalculateButton  (* "Calculate Risk", when [!showResults] *)
| ResetButton      (* "Reset Calculator", when [showResults] *)
| ResultsPanel.    (* recommendations, visuals, score card, share buttons *)

Definition rendered (st : UIState) : list Control :=
  ((if isOpen st then cons SliderPanel nil else nil)
   ++ (if negb (isOpen st) then cons ReassessHint nil else nil)
   ++ (if negb (showResults st) then cons CalculateButton nil else cons ResetButton nil)
   ++ (if showResults st then cons ResultsPanel nil else nil))%list.

(** Whether an event is a call of the [Collapsible]'s [onOpenChange]. *)
Definition isOpenChange (e : Event) : bool :=
  match e with OpenChange _ => true | _ => false end.

(** The order of the three tiers [getRiskLevel] names. *)
Definition tierRank (l : string) : nat :=
  if String.eqb l "Low" then 0 else if String.eqb l "Moderate" then 1 else 2.

(** Sanity checks on small inputs. *)
Example score_defaults : calculateRiskScore (mkInputs 40 7 5) == 47 # 8.
Proof. reflexivity. Qed.
Example score_baseline : calculateRiskScore (mkInputs 40 8 10) == 4.
Proof. reflexivity. Qed.

(** ** Helper lemmas *)

Lemma Qle_bool_false (a b : Q) : Qle_bool a b = false -> b < a.
Proof.
  intro E. apply Qnot_le_lt. intro H. apply Qle_bool_iff in H. congruence.
Qed.

Ltac case_qle :=
  match goal with
  | |- context [Qle_bool ?a ?b] =>
      let E := fresh "E" in
      destruct (Qle_bool a b) eqn:E;
      [apply Qle_bool_iff in E | apply Qle_bool_false in E]
  end.

Lemma Math_max_Qmax (a b : Q) : Math_max a b == Qmax a b.
Proof.
  unfold Math_max; case_qle.
  - rewrite Q.max_r by exact E. reflexivity.
  - rewrite Q.max_l by (apply Qlt_le_weak; exact E). reflexivity.
Qed.

Lemma Math_min_Qmin (a b : Q) : Math_min a b == Qmin a b.
Proof.
  unfold Math_min; case_qle.
  - rewrite Q.min_l by exact E. reflexivity.
  - rewrite Q.min_r by (apply Qlt_le_weak; exact E). reflexivity.
Qed.


Lemma Math_max_mono_l (a b c : Q) : a <= b -> Math_max a c <= Math_max b c.
Proof. intro H. unfold Math_max; repeat case_qle; lra. Qed.

Lemma Math_min_mono_l (a b c : Q) : a <= b -> Math_min a c <= Math_min b c.
Proof. intro H. unfold Math_min; repeat case_qle; lra. Qed.

Lemma Math_max_ge_r (a b : Q) : b <= Math_max a b.
Proof. unfold Math_max; case_qle; lra. Qed.

Lemma Math_min_le_r (a b : Q) : Math_min a b <= b.
Proof. unfold Math_min; case_qle; lra. Qed.

Lemma Math_min_glb (a b c : Q) : c <= a -> c <= b -> c <= Math_min a b.
Proof. intros Ha Hb. unfold Math_min; case_qle; lra. Qed.

Lemma clamp10_bounds (x : Q) : 0 <= clamp10 x /\ clamp10 x <= 10.
Proof.
  unfold clamp10.
  pose proof (Math_max_ge_r x 0) as H0.
  pose proof (Math_min_le_r (Math_max x 0) 1) as H1.
  assert (H2 : 0 <= Math_min (Math_max x 0) 1) by (apply Math_min_glb; lra).
  set (m := Math_min (Math_max x 0) 1) in *.
  split; lra.
Qed.

Lemma clamp10_mono (x y : Q) : x <= y -> clamp10 x <= clamp10 y.
Proof.
  intro H. unfold clamp10.
  pose proof (Math_min_mono_l _ _ 1 (Math_max_mono_l x y 0 H)) as Hm.
  set (mx := Math_min (Math_max x 0) 1) in *.
  set (my := Math_min (Math_max y 0) 1) in *.
  lra.
Qed.

(** Division by the literals of the formula, as multiplication by a
    constant [lra] reads. *)
Ltac qconst :=
  change (/ 40) with (1 # 40) in *; change (/ 8) with (1 # 8) in *;
  change (/ 10) with (1 # 10) in *.


(** ** Binary64 rounding *)

#[global] Instance Qeq_bool_proper : Proper (Qeq ==> Qeq ==> eq) Qeq_bool.
Proof.
  intros a b H c d H'. apply eq_true_iff_eq. rewrite !Qeq_bool_iff, H, H'. reflexivity.
Qed.

#[global] Instance Qle_bool_proper : Proper (Qeq ==> Qeq ==> eq) Qle_bool.
Proof.
  intros a b H c d H'. apply eq_true_iff_eq. rewrite !Qle_bool_iff, H, H'. reflexivity.
Qed.

Lemma two_neq0 : ~ (2 # 1) == 0.
Proof. intro H. discriminate H. Qed.

Lemma one_le_two : 1 <= (2 # 1).
Proof. unfold Qle; simpl; lia. Qed.

Lemma one_lt_two : 1 < (2 # 1).
Proof. unfold Qlt; simpl; lia. Qed.

Lemma pow2_pos z : 0 < pow2 z.
Proof. unfold pow2. apply Qpower_0_lt. reflexivity. Qed.

Lemma pow2_plus a b : pow2 (a + b) == pow2 a * pow2 b.
Proof. unfold pow2. apply Qpower_plus, two_neq0. Qed.

Lemma pow2_le a b : (a <= b)%Z -> pow2 a <= pow2 b.
Proof. intros. unfold pow2. apply Qpower_le_compat_l; [assumption | apply one_le_two]. Qed.

Lemma pow2_lt a b : (a < b)%Z -> pow2 a < pow2 b.
Proof. intros. unfold pow2. apply Qpower_lt_compat_l; [assumption | apply one_lt_two]. Qed.

Lemma pow2_lt_inv a b : pow2 a < pow2 b -> (a < b)%Z.
Proof. intros. eapply Qpower_lt_compat_l_inv; [exact H | apply one_lt_two]. Qed.

Lemma pow2_le_inv a b : pow2 a <= pow2 b -> (a <= b)%Z.
Proof. intros. eapply Qpower_le_compat_l_inv; [exact H | apply one_lt_two]. Qed.

Lemma pow2_Z n : (0 <= n)%Z -> pow2 n == inject_Z (2 ^ n).
Proof. intros. unfold pow2. rewrite Zpower_Qpower by assumption. reflexivity. Qed.

Lemma floorLog2_bracket a : 0 < a ->
  pow2 (floorLog2 a) <= a /\ a < pow2 (floorLog2 a + 1).
Proof.
  intros Ha. destruct a as [n d].
  assert (Hn : (0 < n)%Z) by (unfold Qlt in Ha; simpl in Ha; lia).
  pose proof (Z.log2_spec n Hn) as [Hn1 Hn2].
  pose proof (Z.log2_spec (Zpos d) eq_refl) as [Hd1 Hd2].
  rewrite <- Z.add_1_r in Hn2, Hd2.
  pose proof (Z.log2_nonneg n). pose proof (Z.log2_nonneg (Zpos d)).
  set (ln := Z.log2 n) in *. set (ld := Z.log2 (Zpos d)) in *.
  assert (Hdq : 0 < inject_Z (Zpos d)) by (unfold Qlt; simpl; lia).
  assert (Hlo : pow2 (ln - ld - 1) < n # d).
  { rewrite Qmake_Qdiv. apply Qlt_shift_div_l; [exact Hdq |].
    apply Qlt_le_trans with (pow2 (ln - ld - 1) * pow2 (ld + 1)).
    - rewrite !(Qmult_comm (pow2 (ln - ld - 1))).
      apply Qmult_lt_compat_r; [apply pow2_pos |].
      rewrite pow2_Z by lia. rewrite <- Zlt_Qlt. exact Hd2.
    - rewrite <- pow2_plus. replace (ln - ld - 1 + (ld + 1))%Z with ln by ring.
      rewrite pow2_Z by lia. rewrite <- Zle_Qle. exact Hn1. }
  assert (Hhi : n # d < pow2 (ln - ld + 1)).
  { rewrite Qmake_Qdiv. apply Qlt_shift_div_r; [exact Hdq |].
    apply Qlt_le_trans with (pow2 (ln - ld + 1) * pow2 ld).
    - rewrite <- pow2_plus. replace (ln - ld + 1 + ld)%Z with (ln + 1)%Z by ring.
      rewrite pow2_Z by lia. rewrite <- Zlt_Qlt. exact Hn2.
    - rewrite !(Qmult_comm (pow2 (ln - ld + 1))).
      apply Qmult_le_compat_r; [| apply Qlt_le_weak, pow2_pos].
      rewrite pow2_Z by lia. rewrite <- Zle_Qle. exact Hd1. }
  unfold floorLog2; cbn [Qnum Qden]. fold ln ld.
  destruct (Qle_bool (pow2 (ln - ld)) (n # d)) eqn:E.
  - apply Qle_bool_iff in E. split; assumption.
  - apply Qle_bool_false in E. split.
    + apply Qlt_le_weak; exact Hlo.
    + replace (ln - ld - 1 + 1)%Z with (ln - ld)%Z by ring. exact E.
Qed.

Lemma floorLog2_unique a e : pow2 e <= a -> a < pow2 (e + 1) -> floorLog2 a = e.
Proof.
  intros H1 H2.
  assert (Ha : 0 < a) by (eapply Qlt_le_trans; [apply pow2_pos | exact H1]).
  destruct (floorLog2_bracket a Ha) as [F1 F2].
  destruct (Z.lt_trichotomy (floorLog2 a) e) as [L | [L | L]]; [| exact L |].
  - assert (pow2 (floorLog2 a + 1) <= pow2 e) by (apply pow2_le; lia).
    exfalso. apply (Qlt_irrefl a). eapply Qlt_le_trans; [exact F2 |].
    eapply Qle_trans; eassumption.
  - assert (pow2 (e + 1) <= pow2 (floorLog2 a)) by (apply pow2_le; lia).
    exfalso. apply (Qlt_irrefl a). eapply Qlt_le_trans; [exact H2 |].
    eapply Qle_trans; eassumption.
Qed.

Lemma floorLog2_compat a b : 0 < a -> a == b -> floorLog2 a = floorLog2 b.
Proof.
  intros Ha E. destruct (floorLog2_bracket a Ha) as [F1 F2].
  symmetry. apply floorLog2_unique; rewrite <- E; assumption.
Qed.

Lemma floorLog2_mono a b : 0 < a -> a <= b -> (floorLog2 a <= floorLog2 b)%Z.
Proof.
  intros Ha Hab.
  assert (Hb : 0 < b) by (eapply Qlt_le_trans; eassumption).
  destruct (floorLog2_bracket a Ha) as [A1 A2].
  destruct (floorLog2_bracket b Hb) as [B1 B2].
  destruct (Z_le_gt_dec (floorLog2 a) (floorLog2 b)) as [L | L]; [exact L |].
  assert (pow2 (floorLog2 b + 1) <= pow2 (floorLog2 a)) by (apply pow2_le; lia).
  exfalso. apply (Qlt_irrefl b). eapply Qlt_le_trans; [exact B2 |].
  eapply Qle_trans; [eassumption |]. eapply Qle_trans; eassumption.
Qed.

(** Rounding to an integer. *)

Lemma inject_Z_succ z : inject_Z (z + 1) == inject_Z z + 1.
Proof. rewrite inject_Z_plus. reflexivity. Qed.

Lemma floor_bounds m : inject_Z (Qfloor m) <= m /\ m < inject_Z (Qfloor m) + 1.
Proof.
  split; [apply Qfloor_le |]. pose proof (Qlt_floor m) as H.
  rewrite inject_Z_plus in H. exact H.
Qed.

Lemma rne_compat m1 m2 : m1 == m2 -> rne m1 = rne m2.
Proof.
  intros E. unfold rne. rewrite (Qfloor_comp m1 m2 E).
  assert (E' : m1 - inject_Z (Qfloor m2) == m2 - inject_Z (Qfloor m2)) by (rewrite E; reflexivity).
  rewrite (Qeq_bool_proper _ _ E' (1 # 2) (1 # 2) (Qeq_refl _)).
  rewrite (Qle_bool_proper _ _ E' (1 # 2) (1 # 2) (Qeq_refl _)).
  reflexivity.
Qed.

Lemma rne_bounds m :
  inject_Z (rne m) - (1 # 2) <= m /\ m <= inject_Z (rne m) + (1 # 2).
Proof.
  destruct (floor_bounds m) as [F1 F2]. unfold rne.
  set (f := Qfloor m) in *.
  destruct (Qeq_bool (m - inject_Z f) (1 # 2)) eqn:E1.
  - apply Qeq_bool_iff in E1.
    destruct (Z.even f); [| rewrite inject_Z_succ]; split; lra.
  - destruct (Qle_bool (m - inject_Z f) (1 # 2)) eqn:E2.
    + apply Qle_bool_iff in E2. split; lra.
    + apply Qle_bool_false in E2. rewrite inject_Z_succ. split; lra.
Qed.

Lemma rne_Z z : rne (inject_Z z) = z.
Proof.
  destruct (rne_bounds (inject_Z z)) as [B1 B2].
  assert (L1 : (rne (inject_Z z) < z + 1)%Z).
  { rewrite Zlt_Qlt, inject_Z_succ. lra. }
  assert (L2 : (z < rne (inject_Z z) + 1)%Z).
  { rewrite Zlt_Qlt, inject_Z_succ. lra. }
  lia.
Qed.

Lemma rne_mono m1 m2 : m1 <= m2 -> (rne m1 <= rne m2)%Z.
Proof.
  intros H.
  destruct (rne_bounds m1) as [A1 A2]. destruct (rne_bounds m2) as [B1 B2].
  destruct (Z_le_gt_dec (rne m1) (rne m2)) as [L | L]; [exact L |].
  assert (L1 : (rne m1 < rne m2 + 2)%Z).
  { rewrite Zlt_Qlt, inject_Z_plus. change (inject_Z 2) with (2 # 1). lra. }
  assert (Hk : rne m1 = (rne m2 + 1)%Z) by lia.
  assert (E1 : inject_Z (rne m1) == inject_Z (rne m2) + 1)
    by (rewrite Hk, inject_Z_succ; reflexivity).
  assert (E : m1 == m2) by lra.
  rewrite (rne_compat m1 m2 E) in L. lia.
Qed.

(** Rounding of a positive rational. *)

Lemma pow2_div x y : pow2 x / pow2 y == pow2 (x - y).
Proof.
  pose proof (pow2_pos y) as Hy.
  assert (E : pow2 x == pow2 (x - y) * pow2 y)
    by (rewrite <- pow2_plus; replace (x - y + y)%Z with x by ring; reflexivity).
  rewrite E. field. intro H0. rewrite H0 in Hy. apply (Qlt_irrefl 0 Hy).
Qed.

Lemma div_le_compat a b p : 0 < p -> a <= b -> a / p <= b / p.
Proof.
  intros Hp H. unfold Qdiv. apply Qmult_le_compat_r; [exact H |].
  apply Qinv_le_0_compat, Qlt_le_weak, Hp.
Qed.

Lemma div_mul_cancel a p : 0 < p -> a / p * p == a.
Proof. intros Hp. field. intro H0. rewrite H0 in Hp. apply (Qlt_irrefl 0 Hp). Qed.

Lemma roundPos_compat a b : 0 < a -> a == b -> roundPos a == roundPos b.
Proof.
  intros Ha E. unfold roundPos, quantum. rewrite (floorLog2_compat a b Ha E).
  rewrite (rne_compat (a / pow2 (Z.max (floorLog2 b - 52) (-1074)))
                      (b / pow2 (Z.max (floorLog2 b - 52) (-1074)))) by (rewrite E; reflexivity).
  reflexivity.
Qed.

Lemma roundPos_nonneg a : 0 < a -> 0 <= roundPos a.
Proof.
  intros Ha. unfold roundPos. set (p := pow2 (quantum a)).
  assert (Hp : 0 < p) by apply pow2_pos.
  apply Qmult_le_0_compat; [| apply Qlt_le_weak, Hp].
  assert (H0 : 0 <= a / p).
  { apply Qle_shift_div_l; [exact Hp |]. rewrite Qmult_0_l. apply Qlt_le_weak, Ha. }
  pose proof (rne_mono (inject_Z 0) (a / p) H0) as L. rewrite rne_Z in L.
  change 0 with (inject_Z 0). rewrite <- Zle_Qle. exact L.
Qed.

Lemma roundPos_err a : 0 < a -> Qabs (roundPos a - a) <= (1 # 2) * pow2 (quantum a).
Proof.
  intros Ha. unfold roundPos. set (p := pow2 (quantum a)).
  assert (Hp : 0 < p) by apply pow2_pos.
  pose proof (div_mul_cancel a p Hp) as Em.
  destruct (rne_bounds (a / p)) as [B1 B2].
  set (m := a / p) in *. set (n := inject_Z (rne m)) in *.
  apply Qabs_Qle_condition. split; nra.
Qed.

Lemma quantum_bound a : 0 < a -> pow2 (quantum a) <= a * pow2 (-52) + pow2 (-1074).
Proof.
  intros Ha. destruct (floorLog2_bracket a Ha) as [F1 F2].
  pose proof (pow2_pos (-52)). pose proof (pow2_pos (-1074)).
  unfold quantum. destruct (Z.max_spec (floorLog2 a - 52) (-1074)) as [[L E] | [L E]];
    rewrite E.
  - assert (0 <= a * pow2 (-52)) by (apply Qmult_le_0_compat; lra). lra.
  - rewrite (pow2_plus (floorLog2 a) (-52)).
    assert (pow2 (floorLog2 a) * pow2 (-52) <= a * pow2 (-52))
      by (apply Qmult_le_compat_r; lra). lra.
Qed.

Lemma roundPos_le_pow2 a k : 0 < a -> a <= pow2 k -> (quantum a <= k)%Z -> roundPos a <= pow2 k.
Proof.
  intros Ha Hk Hq. unfold roundPos. set (q := quantum a) in *.
  assert (Hp : 0 < pow2 q) by apply pow2_pos.
  assert (Z0 : (0 <= k - q)%Z) by lia.
  pose proof (div_le_compat _ _ _ Hp Hk) as D. rewrite pow2_div, (pow2_Z (k - q) Z0) in D.
  pose proof (rne_mono _ _ D) as L. rewrite rne_Z in L. rewrite Zle_Qle in L.
  rewrite <- (pow2_Z (k - q) Z0) in L.
  apply Qle_trans with (pow2 (k - q) * pow2 q).
  - apply Qmult_le_compat_r; [exact L | apply Qlt_le_weak, Hp].
  - rewrite <- pow2_plus. replace (k - q + q)%Z with k by ring. apply Qle_refl.
Qed.

Lemma roundPos_ge_pow2 a k : 0 < a -> pow2 k <= a -> (quantum a <= k)%Z -> pow2 k <= roundPos a.
Proof.
  intros Ha Hk Hq. unfold roundPos. set (q := quantum a) in *.
  assert (Hp : 0 < pow2 q) by apply pow2_pos.
  assert (Z0 : (0 <= k - q)%Z) by lia.
  pose proof (div_le_compat _ _ _ Hp Hk) as D. rewrite pow2_div, (pow2_Z (k - q) Z0) in D.
  pose proof (rne_mono _ _ D) as L. rewrite rne_Z in L. rewrite Zle_Qle in L.
  rewrite <- (pow2_Z (k - q) Z0) in L.
  apply Qle_trans with (pow2 (k - q) * pow2 q).
  - rewrite <- pow2_plus. replace (k - q + q)%Z with k by ring. apply Qle_refl.
  - apply Qmult_le_compat_r; [exact L | apply Qlt_le_weak, Hp].
Qed.

Lemma roundPos_mono a b : 0 < a -> a <= b -> roundPos a <= roundPos b.
Proof.
  intros Ha Hab.
  assert (Hb : 0 < b) by (eapply Qlt_le_trans; eassumption).
  pose proof (floorLog2_mono a b Ha Hab) as Le.
  destruct (floorLog2_bracket a Ha) as [A1 A2].
  destruct (floorLog2_bracket b Hb) as [B1 B2].
  destruct (Z.eq_dec (quantum a) (quantum b)) as [Eq | Ne].
  - unfold roundPos. rewrite Eq. set (p := pow2 (quantum b)).
    assert (Hp : 0 < p) by apply pow2_pos.
    apply Qmult_le_compat_r; [| apply Qlt_le_weak, Hp].
    rewrite <- Zle_Qle. apply rne_mono, div_le_compat; assumption.
  - assert (Hqb : quantum b = (floorLog2 b - 52)%Z /\ (quantum a < quantum b)%Z).
    { unfold quantum in *. lia. }
    destruct Hqb as [Qb Lt].
    assert (Hea : (quantum a >= floorLog2 a - 52)%Z) by (unfold quantum; lia).
    apply Qle_trans with (pow2 (floorLog2 b)).
    + apply roundPos_le_pow2; [exact Ha | | lia].
      apply Qle_trans with (pow2 (floorLog2 a + 1)); [apply Qlt_le_weak, A2 |].
      apply pow2_le. lia.
    + apply roundPos_ge_pow2; [exact Hb | exact B1 | lia].
Qed.

(** Rounding of any rational. *)

Lemma roundQ_cases x :
  (0 < x /\ roundQ x = roundPos x) \/ (x == 0 /\ roundQ x = 0)
  \/ (x < 0 /\ roundQ x = - roundPos (- x)).
Proof.
  unfold roundQ. destruct (Qle_bool x 0) eqn:E1.
  - apply Qle_bool_iff in E1. destruct (Qle_bool 0 x) eqn:E2.
    + apply Qle_bool_iff in E2. right; left. split; [apply Qle_antisym |]; auto.
    + apply Qle_bool_false in E2. right; right. auto.
  - apply Qle_bool_false in E1. left. auto.
Qed.

Ltac round_cases x :=
  destruct (roundQ_cases x) as [[? ?] | [[? ?] | [? ?]]].

Lemma roundQ_compat x y : x == y -> roundQ x == roundQ y.
Proof.
  intros E. round_cases x; round_cases y;
    match goal with
    | H1 : roundQ x = _, H2 : roundQ y = _ |- _ => rewrite H1, H2
    end; try lra.
  - apply roundPos_compat; assumption.
  - apply Qopp_comp, roundPos_compat; lra.
Qed.

#[global] Instance roundQ_proper : Proper (Qeq ==> Qeq) roundQ.
Proof. intros x y E. apply roundQ_compat, E. Qed.

Lemma roundQ_nonneg x : 0 <= x -> 0 <= roundQ x.
Proof.
  intros H. round_cases x.
  - rewrite H1. apply roundPos_nonneg; assumption.
  - rewrite H1. apply Qle_refl.
  - lra.
Qed.

Lemma roundQ_opp x : roundQ (- x) == - roundQ x.
Proof.
  round_cases x; round_cases (- x);
    match goal with
    | H1 : roundQ x = _, H2 : roundQ (- x) = _ |- _ => rewrite H1, H2
    end; try lra.
  all: first [ring | apply Qopp_comp, roundPos_compat; [lra | ring]].
Qed.

Lemma roundQ_mono x y : x <= y -> roundQ x <= roundQ y.
Proof.
  intros H. round_cases x; round_cases y;
    match goal with
    | H1 : roundQ x = _, H2 : roundQ y = _ |- _ => rewrite H1, H2
    end; try lra.
  all: try (pose proof (roundPos_nonneg x ltac:(lra)));
       try (pose proof (roundPos_nonneg y ltac:(lra)));
       try (pose proof (roundPos_nonneg (- x) ltac:(lra)));
       try (pose proof (roundPos_nonneg (- y) ltac:(lra))); try lra.
  - apply roundPos_mono; assumption.
  - assert (roundPos (- y) <= roundPos (- x)) by (apply roundPos_mono; lra). lra.
Qed.

Lemma roundQ_err x : Qabs (roundQ x - x) <= Qabs x * pow2 (-53) + pow2 (-1075).
Proof.
  assert (P53 : pow2 (-53) == (1 # 2) * pow2 (-52)) by (apply Qeq_bool_iff; vm_compute; reflexivity).
  assert (P1075 : pow2 (-1075) == (1 # 2) * pow2 (-1074)) by (apply Qeq_bool_iff; vm_compute; reflexivity).
  rewrite P53, P1075.
  assert (Pos : forall a, 0 < a ->
    Qabs (roundPos a - a) <= a * ((1 # 2) * pow2 (-52)) + (1 # 2) * pow2 (-1074)).
  { intros a Ha. eapply Qle_trans; [apply roundPos_err, Ha |].
    pose proof (quantum_bound a Ha). lra. }
  round_cases x.
  - rewrite H0, (Qabs_pos x) by lra. apply Pos, H.
  - rewrite H0. rewrite H. pose proof (pow2_pos (-1074)). pose proof (pow2_pos (-52)).
    change (Qabs (0 - 0)) with 0. change (Qabs 0) with 0. lra.
  - rewrite H0, (Qabs_neg x) by lra.
    assert (E : - roundPos (- x) - x == - (roundPos (- x) - - x)) by ring.
    rewrite E, Qabs_opp. apply Pos. lra.
Qed.

Lemma roundQ_abs x : roundQ (Qabs x) == Qabs (roundQ x).
Proof.
  destruct (Qlt_le_dec x 0) as [L | L].
  - rewrite Qabs_neg by lra. rewrite roundQ_opp.
    assert (roundQ x <= roundQ 0) by (apply roundQ_mono; lra).
    change (roundQ 0) with 0 in H. rewrite Qabs_neg by lra. reflexivity.
  - rewrite Qabs_pos by lra. rewrite Qabs_pos; [reflexivity |]. apply roundQ_nonneg, L.
Qed.

(** The operations that stay in range. *)

Lemma finRound_ok x B : Qabs x <= B -> roundQ B < overflowBound ->
  finRound x = Fin (roundQ x) /\ Qabs (roundQ x) <= roundQ B.
Proof.
  intros HB HO.
  apply Qabs_Qle_condition in HB. destruct HB as [B1 B2].
  pose proof (roundQ_mono _ _ B1) as R1. pose proof (roundQ_mono _ _ B2) as R2.
  rewrite roundQ_opp in R1.
  assert (A : Qabs (roundQ x) <= roundQ B) by (apply Qabs_Qle_condition; split; assumption).
  split; [| exact A].
  unfold finRound. destruct (Qle_bool overflowBound (Qabs (roundQ x))) eqn:E; [| reflexivity].
  apply Qle_bool_iff in E. lra.
Qed.

Lemma isDouble_le_max q : isDouble q = true -> Qabs q <= maxDouble.
Proof.
  unfold isDouble. intros H. apply andb_true_iff in H. destruct H as [E O].
  apply Qeq_bool_iff in E. apply negb_true_iff, Qle_bool_false in O.
  set (a := Qabs q) in *.
  assert (Ea : roundQ a == a) by (unfold a; rewrite roundQ_abs, E; reflexivity).
  assert (M0 : pow2 1023 <= maxDouble) by (apply Qle_bool_iff; vm_compute; reflexivity).
  destruct (roundQ_cases a) as [[Ha Ra] | [[Ha Ra] | [Ha Ra]]].
  2: { rewrite Ha. pose proof (pow2_pos 1023). lra. }
  2: { exfalso. unfold a in Ha. pose proof (Qabs_nonneg q). lra. }
  rewrite Ra in Ea.
  destruct (floorLog2_bracket a Ha) as [F1 F2].
  assert (Le : (floorLog2 a < 1024)%Z)
    by (apply pow2_lt_inv; unfold overflowBound in O; lra).
  destruct (Z_le_gt_dec (floorLog2 a) 1022) as [L | L].
  - assert (pow2 (floorLog2 a + 1) <= pow2 1023) by (apply pow2_le; lia). lra.
  - assert (Q971 : quantum a = 971%Z) by (unfold quantum; lia).
    unfold roundPos in Ea. rewrite Q971 in Ea.
    set (N := rne (a / pow2 971)) in Ea.
    assert (P971 : 0 < pow2 971) by apply pow2_pos.
    assert (P1024 : pow2 1024 == inject_Z (2 ^ 53) * pow2 971)
      by (apply Qeq_bool_iff; vm_compute; reflexivity).
    assert (LtN : inject_Z N < inject_Z (2 ^ 53)).
    { apply (Qmult_lt_r _ _ (pow2 971) P971). unfold overflowBound in O. lra. }
    rewrite <- Zlt_Qlt in LtN.
    assert (LeN : inject_Z N <= inject_Z (2 ^ 53 - 1)) by (rewrite <- Zle_Qle; lia).
    assert (P53 : inject_Z (2 ^ 53 - 1) == pow2 53 - 1)
      by (apply Qeq_bool_iff; vm_compute; reflexivity).
    unfold maxDouble. rewrite <- P53.
    assert (inject_Z N * pow2 971 <= inject_Z (2 ^ 53 - 1) * pow2 971)
      by (apply Qmult_le_compat_r; lra).
    lra.
Qed.

(** ** The scorer on binary64 *)

Lemma jsDiv_fin x y : Qeq_bool y 0 = false -> jsDiv (Fin x) (Fin y) = finRound (x / y).
Proof. intros E. unfold jsDiv. rewrite E. reflexivity. Qed.

Lemma jsMul_fin x y : jsMul (Fin x) (Fin y) = finRound (x * y).
Proof. reflexivity. Qed.

Lemma jsAdd_fin x y : jsAdd (Fin x) (Fin y) = finRound (x + y).
Proof. reflexivity. Qed.

Lemma Math_max64_fin a b : Math_max64 (Fin a) (Fin b) = Fin (Math_max a b).
Proof. unfold Math_max64, Math_max, jsLe. destruct (Qle_bool a b); reflexivity. Qed.

Lemma Math_min64_fin a b : Math_min64 (Fin a) (Fin b) = Fin (Math_min a b).
Proof. unfold Math_min64, Math_min, jsLe. destruct (Qle_bool a b); reflexivity. Qed.

Lemma abs_mul_le x y A B : Qabs x <= A -> Qabs y <= B -> Qabs (x * y) <= A * B.
Proof.
  intros Hx Hy. rewrite Qabs_Qmult.
  apply Qmult_le_compat_nonneg; split; try assumption; apply Qabs_nonneg.
Qed.

Lemma abs_add_le x y A B : Qabs x <= A -> Qabs y <= B -> Qabs (x + y) <= A + B.
Proof.
  intros Hx Hy. eapply Qle_trans; [apply Qabs_triangle |].
  apply Qplus_le_compat; assumption.
Qed.

Lemma abs_opp_le x A : Qabs x <= A -> Qabs (- x) <= A.
Proof. rewrite Qabs_opp. auto. Qed.

Lemma clamp_unit x : 0 <= Math_min (Math_max x 0) 1 <= 1.
Proof.
  split; [apply Math_min_glb; [apply Math_max_ge_r | discriminate] | apply Math_min_le_r].
Qed.

Lemma clamp_abs x : Qabs (Math_min (Math_max x 0) 1) <= 1.
Proof. destruct (clamp_unit x). apply Qabs_Qle_condition. lra. Qed.

(** A proof of [Qabs t <= B] for a bound [B] built from the bounds of
    the leaves of [t] found in the context. *)
Ltac abs_prf t :=
  lazymatch t with
  | Math_min (Math_max ?x 0) 1 => constr:(clamp_abs x)
  | ?a * ?b =>
      let pa := abs_prf a in let pb := abs_prf b in constr:(abs_mul_le a b _ _ pa pb)
  | ?a / ?b =>
      let pa := abs_prf a in constr:(abs_mul_le a (/ b) _ _ pa (Qle_refl (Qabs (/ b))))
  | ?a + ?b =>
      let pa := abs_prf a in let pb := abs_prf b in constr:(abs_add_le a b _ _ pa pb)
  | - ?a => let pa := abs_prf a in constr:(abs_opp_le a _ pa)
  | _ => match goal with
         | H : Qabs t <= _ |- _ => constr:(H)
         | _ => constr:(Qle_refl (Qabs t))
         end
  end.

Ltac fin_step :=
  match goal with
  | |- context [finRound ?x] =>
      let P := abs_prf x in
      let E := fresh "E" in let HB := fresh "HB" in
      destruct (finRound_ok x _ P) as [E HB];
      [ apply Qlt_alt; vm_compute; reflexivity | rewrite E ]
  end;
  rewrite ?Math_max64_fin, ?Math_min64_fin, ?jsMul_fin, ?jsAdd_fin, ?jsDiv_fin by reflexivity.

Lemma calculateRiskScore64_value (i : BurnoutInputs) :
  isDouble (hoursWorked i) = true -> isDouble (sleepHours i) = true ->
  isDouble (selfCareHours i) = true ->
  calculateRiskScore64 i = Fin (score64 i).
Proof.
  destruct i as [h s c]; cbn [hoursWorked sleepHours selfCareHours].
  intros Hh Hs Hc.
  apply isDouble_le_max in Hh. apply isDouble_le_max in Hs. apply isDouble_le_max in Hc.
  unfold calculateRiskScore64, score64, rawScore64, jsSub, jsNeg;
    cbn [hoursWorked sleepHours selfCareHours].
  rewrite ?jsMul_fin, ?jsAdd_fin, ?jsDiv_fin by reflexivity.
  repeat fin_step.
  reflexivity.
Qed.

Lemma score64_bounds (i : BurnoutInputs) : 0 <= score64 i /\ score64 i <= 10.
Proof.
  unfold score64. destruct (clamp10_bounds (rawScore64 i)) as [L U]. split.
  - apply roundQ_nonneg, L.
  - assert (R10 : roundQ 10 == 10) by (apply Qeq_bool_iff; vm_compute; reflexivity).
    apply Qle_trans with (roundQ 10); [apply roundQ_mono, U | rewrite R10; apply Qle_refl].
Qed.

Ltac mono_chain :=
  repeat first
    [ apply roundQ_mono | apply Qplus_le_compat | apply Qopp_le_compat
    | apply Qmult_le_compat_r; [| discriminate] | apply Qle_refl | assumption ].

Lemma score64_mono_hours (h1 h2 s c : Q) :
  h1 <= h2 -> score64 (mkInputs h1 s c) <= score64 (mkInputs h2 s c).
Proof.
  intro H. unfold score64. apply roundQ_mono, clamp10_mono.
  unfold rawScore64; cbn [hoursWorked sleepHours selfCareHours]. mono_chain.
Qed.

Lemma score64_anti_sleep (h s1 s2 c : Q) :
  s1 <= s2 -> score64 (mkInputs h s2 c) <= score64 (mkInputs h s1 c).
Proof.
  intro H. unfold score64. apply roundQ_mono, clamp10_mono.
  unfold rawScore64; cbn [hoursWorked sleepHours selfCareHours]. mono_chain.
Qed.

Lemma score64_anti_selfCare (h s c1 c2 : Q) :
  c1 <= c2 -> score64 (mkInputs h s c2) <= score64 (mkInputs h s c1).
Proof.
  intro H. unfold score64. apply roundQ_mono, clamp10_mono.
  unfold rawScore64; cbn [hoursWorked sleepHours selfCareHours]. mono_chain.
Qed.

Lemma round_close x : Qabs x <= 100 -> Qabs (roundQ x - x) <= 1 # 70368744177664.
Proof.
  intro H. eapply Qle_trans; [apply roundQ_err |].
  assert (P : 0 < pow2 (-53)) by apply pow2_pos.
  apply Qle_trans with (100 * pow2 (-53) + pow2 (-1075)).
  - apply Qplus_le_compat; [apply Qmult_le_compat_r; lra | apply Qle_refl].
  - apply Qle_bool_iff. vm_compute. reflexivity.
Qed.

Lemma clamp_lipschitz x y :
  Qabs (clamp10 x - Qmin (Qmax y 0) 1 * 10) <= 10 * Qabs (x - y).
Proof.
  unfold clamp10.
  pose proof (Math_min_Qmin (Math_max x 0) 1). pose proof (Math_max_Qmax x 0).
  destruct (Q.min_spec (Math_max x 0) 1) as [[? ?] | [? ?]];
  destruct (Q.max_spec x 0) as [[? ?] | [? ?]];
  destruct (Q.min_spec (Qmax y 0) 1) as [[? ?] | [? ?]];
  destruct (Q.max_spec y 0) as [[? ?] | [? ?]];
  pose proof (Qle_Qabs (x - y)) as A1; pose proof (Qle_Qabs (- (x - y))) as A2;
  rewrite Qabs_opp in A2;
  apply Qabs_Qle_condition; split; lra.
Qed.

Ltac close_step x r :=
  let B := fresh "B" in let C := fresh "C" in let C1 := fresh "C" in
  assert (B : Qabs x <= 100) by (apply Qabs_Qle_condition; split; lra);
  pose proof (round_close x B) as C; apply Qabs_Qle_condition in C;
  destruct C as [C C1]; clear B; set (r := roundQ x) in *; clearbody r.

Lemma score64_close (h s c : Q) :
  0 <= h <= 100 -> 0 <= s <= 12 -> 0 <= c <= 40 ->
  Qabs (score64 (mkInputs h s c) - riskScore_spec h s c) <= 1 # 1000000000000.
Proof.
  intros Hh Hs Hc.
  unfold score64, rawScore64, riskScore_spec; cbn [hoursWorked sleepHours selfCareHours].
  set (raw := ((h / 40) * 4 + ((8 - s) / 8) * 3 + ((10 - c) / 10) * 3) / 10).
  assert (Raw : raw == (h * (1 # 40) * 4 + (8 - s) * (1 # 8) * 3 + (10 - c) * (1 # 10) * 3) * (1 # 10))
    by (unfold raw, Qdiv; qconst; reflexivity).
  clearbody raw.
  unfold Qdiv; qconst.
  close_step (h * (1 # 40)) r1.
  close_step (r1 * 4) r2.
  close_step (8 + - s) r3.
  close_step (r3 * (1 # 8)) r4.
  close_step (r4 * 3) r5.
  close_step (10 + - c) r6.
  close_step (r6 * (1 # 10)) r7.
  close_step (r7 * 3) r8.
  close_step (r2 + r5) r9.
  close_step (r9 + r8) r10.
  close_step (r10 * (1 # 10)) r11.
  assert (D : Qabs (r11 - raw) <= 3 * (1 # 70368744177664))
    by (apply Qabs_Qle_condition; split; lra).
  pose proof (clamp_lipschitz r11 raw) as L.
  assert (L' : Qabs (clamp10 r11 - Qmin (Qmax raw 0) 1 * 10) <= 30 * (1 # 70368744177664))
    by (eapply Qle_trans; [exact L | lra]).
  apply Qabs_Qle_condition in L'.
  pose proof (clamp10_bounds r11).
  close_step (clamp10 r11) r12.
  apply Qabs_Qle_condition; split; lra.
Qed.

(** ** Claims about the scorer and the classifiers *)

(** C1 as stated: the score would be exactly the spec's formula for
    every input.  On JavaScript numbers it is not: at (6, 8, 2) the
    formula gives 3, but the rounded operations give [3 + 2^-51], which
    [getRiskLevel] classifies Moderate instead of Low. *)
Lemma calculateRiskScore64_not_exact :
  exists r : Q,
    calculateRiskScore64 (mkInputs 6 8 2) = Fin r
    /\ r == 3 + pow2 (-51) /\ riskScore_spec 6 8 2 == 3
    /\ level (getRiskLevel r) = "Moderate"%string
    /\ level (getRiskLevel (riskScore_spec 6 8 2)) = "Low"%string.
Proof.
  exists (6755399441055745 # 2251799813685248).
  split; [vm_compute; reflexivity |].
  split; [apply Qeq_bool_iff; vm_compute; reflexivity |].
  split; [reflexivity |]. split; vm_compute; reflexivity.
Qed.

(** C1 (amended): for every input triple of finite numbers, in range or
    not, [calculateRiskScore] returns a finite number and rejects
    nothing: the spec's formula with each operation of the source rounded
    to binary64 ([score64]).  For inputs within the slider ranges
    (hours 0-100, sleep 0-12, self-care 0-40) that number is within
    [10^-12] of the exact formula, without always being equal to it. *)
Theorem calculateRiskScore64_rounded_formula :
  (forall h s c : Q,
     isDouble h = true -> isDouble s = true -> isDouble c = true ->
     calculateRiskScore64 (mkInputs h s c) = Fin (score64 (mkInputs h s c)))
  /\ (forall h s c : Q,
     isDouble h = true -> isDouble s = true -> isDouble c = true ->
     0 <= h <= 100 -> 0 <= s <= 12 -> 0 <= c <= 40 ->
     exists r : Q, calculateRiskScore64 (mkInputs h s c) = Fin r
       /\ Qabs (r - riskScore_spec h s c) <= 1 # 1000000000000).
Proof.
  split.
  - intros h s c Hh Hs Hc. apply calculateRiskScore64_value; assumption.
  - intros h s c Hh Hs Hc Rh Rs Rc. exists (score64 (mkInputs h s c)). split.
    + apply calculateRiskScore64_value; assumption.
    + apply score64_close; assumption.
Qed.

Lemma calculateRiskScore64_rounded_formula_witness :
  calculateRiskScore64 (mkInputs 1000 (-3) (1 # 2)) = Fin (score64 (mkInputs 1000 (-3) (1 # 2)))
  /\ exists r : Q, calculateRiskScore64 (mkInputs 6 8 2) = Fin r
       /\ Qabs (r - riskScore_spec 6 8 2) <= 1 # 1000000000000.
Proof.
  destruct calculateRiskScore64_rounded_formula as [Hv Hc]. split.
  - apply Hv; vm_compute; reflexivity.
  - apply Hc; try (vm_compute; reflexivity); split; vm_compute; discriminate.
Defined.

(** C2: for every input triple of finite numbers the score is a finite
    number in [0, 10], and the extreme inputs (100, 0, 0) give exactly
    10. *)
Theorem calculateRiskScore64_range :
  (forall h s c : Q,
     isDouble h = true -> isDouble s = true -> isDouble c = true ->
     exists r : Q, calculateRiskScore64 (mkInputs h s c) = Fin r /\ 0 <= r /\ r <= 10)
  /\ exists r : Q, calculateRiskScore64 (mkInputs 100 0 0) = Fin r /\ r == 10.
Proof.
  split.
  - intros h s c Hh Hs Hc. exists (score64 (mkInputs h s c)). split.
    + apply calculateRiskScore64_value; assumption.
    + apply score64_bounds.
  - exists (5629499534213120 # 562949953421312). split; vm_compute; reflexivity.
Qed.

Lemma calculateRiskScore64_range_witness :
  exists r : Q, calculateRiskScore64 (mkInputs 100 0 (-100)) = Fin r /\ 0 <= r /\ r <= 10.
Proof.
  apply (proj1 calculateRiskScore64_range); vm_compute; reflexivity.
Defined.

(** C3 as stated: at (40, 8, 10) the score would be 0.  It is not: the
    workload term [40/40 * 4] alone contributes 4 after rescaling. *)
Lemma baseline_score_not_zero :
  ~ (calculateRiskScore (mkInputs 40 8 10) == 0).
Proof. vm_compute. discriminate. Qed.

(** C3 (amended): at (40, 8, 10), where the sleep and self-care deficits
    are zero, [calculateRiskScore] returns 4, which [getRiskLevel]
    classifies Moderate; only the deficits, not the workload, vanish. *)
Theorem baseline_score_is_four :
  calculateRiskScore (mkInputs 40 8 10) == 4
  /\ level (getRiskLevel (calculateRiskScore (mkInputs 40 8 10))) = "Moderate"%string.
Proof. split; reflexivity. Qed.

(** C4: on finite inputs the score is monotone in each input
    separately: non-decreasing in [hoursWorked], non-increasing in
    [sleepHours] and in [selfCareHours], the other two inputs fixed
    ([jsLe] is JavaScript's [<=], false when either side is NaN). *)
Theorem calculateRiskScore64_monotone :
  (forall h1 h2 s c : Q,
     isDouble h1 = true -> isDouble h2 = true -> isDouble s = true -> isDouble c = true ->
     h1 <= h2 ->
     jsLe (calculateRiskScore64 (mkInputs h1 s c)) (calculateRiskScore64 (mkInputs h2 s c)) = true)
  /\ (forall h s1 s2 c : Q,
     isDouble h = true -> isDouble s1 = true -> isDouble s2 = true -> isDouble c = true ->
     s1 <= s2 ->
     jsLe (calculateRiskScore64 (mkInputs h s2 c)) (calculateRiskScore64 (mkInputs h s1 c)) = true)
  /\ (forall h s c1 c2 : Q,
     isDouble h = true -> isDouble s = true -> isDouble c1 = true -> isDouble c2 = true ->
     c1 <= c2 ->
     jsLe (calculateRiskScore64 (mkInputs h s c2)) (calculateRiskScore64 (mkInputs h s c1)) = true).
Proof.
  repeat split; intros;
    rewrite !calculateRiskScore64_value by assumption; cbn [jsLe];
    apply Qle_bool_iff.
  - apply score64_mono_hours; assumption.
  - apply score64_anti_sleep; assumption.
  - apply score64_anti_selfCare; assumption.
Qed.

Lemma calculateRiskScore64_monotone_witness :
  jsLe (calculateRiskScore64 (mkInputs 40 7 5)) (calculateRiskScore64 (mkInputs 60 7 5)) = true
  /\ jsLe (calculateRiskScore64 (mkInputs 40 8 5)) (calculateRiskScore64 (mkInputs 40 7 5)) = true
  /\ jsLe (calculateRiskScore64 (mkInputs 40 7 (21 # 2))) (calculateRiskScore64 (mkInputs 40 7 5)) = true.
Proof.
  destruct calculateRiskScore64_monotone as [Hh [Hs Hc]].
  split; [|split].
  - apply Hh; try (vm_compute; reflexivity). vm_compute. discriminate.
  - apply Hs; try (vm_compute; reflexivity). vm_compute. discriminate.
  - apply Hc; try (vm_compute; reflexivity). vm_compute. discriminate.
Defined.

(** C5: [getRiskLevel] splits scores at 3 and 6, each boundary on the
    lower tier: 3 is Low, 3.01 Moderate, 6 Moderate, 6.01 High; every
    score <= 3 is Low, every score in (3, 6] Moderate, every score > 6
    High. *)
Theorem getRiskLevel_thresholds :
  level (getRiskLevel 3) = "Low"%string
  /\ level (getRiskLevel (301 # 100)) = "Moderate"%string
  /\ level (getRiskLevel 6) = "Moderate"%string
  /\ level (getRiskLevel (601 # 100)) = "High"%string
  /\ (forall s : Q,
        (level (getRiskLevel s) = "Low"%string <-> s <= 3)
        /\ (level (getRiskLevel s) = "Moderate"%string <-> 3 < s /\ s <= 6)
        /\ (level (getRiskLevel s) = "High"%string <-> 6 < s)).
Proof.
  split; [reflexivity|]. split; [reflexivity|]. split; [reflexivity|].
  split; [reflexivity|].
  intro s. unfold getRiskLevel. repeat case_qle; cbn [level];
    repeat split; intros; try discriminate; try lra.
Qed.

(** C6: [getBurnoutWindow] gives "Low risk - maintain current balance"
    exactly for scores <= 3, "4-8 weeks if patterns continue" exactly for
    scores in (3, 6] and "2-4 weeks if patterns continue" exactly for
    scores > 6; it agrees with [getRiskLevel] on every score, so the two
    use the same thresholds with the boundary on the lower tier. *)
Theorem getBurnoutWindow_thresholds :
  forall s : Q,
    (getBurnoutWindow s = "Low risk - maintain current balance"%string <-> s <= 3)
    /\ (getBurnoutWindow s = "4-8 weeks if patterns continue"%string
          <-> 3 < s /\ s <= 6)
    /\ (getBurnoutWindow s = "2-4 weeks if patterns continue"%string <-> 6 < s)
    /\ getBurnoutWindow s = window_of_level (level (getRiskLevel s)).
Proof.
  intro s. unfold getBurnoutWindow, getRiskLevel. repeat case_qle; cbn [level];
    repeat split; intros; try discriminate; try lra; reflexivity.
Qed.


(** ** Claims about the component state *)

(** C10: the defaults (40, 7, 5) score 5.875 and classify Moderate: they
    are not the zero-deficit baseline and give neither 0 nor Low. *)
Theorem defaults_score_moderate :
  calculateRiskScore (inputs initialState) == 5875 # 1000
  /\ level (getRiskLevel (calculateRiskScore (inputs initialState))) = "Moderate"%string
  /\ ~ (calculateRiskScore (inputs initialState) == 0)
  /\ inputs initialState <> mkInputs 40 8 10.
Proof.
  split; [reflexivity|]. split; [reflexivity|]. split.
  - vm_compute. discriminate.
  - intro H. injection H. intros _ Hs. discriminate.
Qed.

(** C8: from every state, whatever the inputs and the mode, reset sets
    the inputs to exactly (40, 7, 5) and returns to editing mode, with no
    results shown. *)
Theorem reset_restores_defaults :
  forall st : UIState,
    inputs (handle st Reset) = mkInputs 40 7 5
    /\ hoursWorked (inputs (handle st Reset)) = 40
    /\ sleepHours (inputs (handle st Reset)) = 7
    /\ selfCareHours (inputs (handle st Reset)) = 5
    /\ showResults (handle st Reset) = false
    /\ mode (handle st Reset) = Editing.
Proof. intro st. repeat split. Qed.

Lemma handle_results_frozen (st : UIState) (e : Event) :
  mode st = Results -> e <> Reset ->
  mode (handle st e) = Results /\ inputs (handle st e) = inputs st.
Proof.
  unfold mode. intros Hm He.
  destruct (showResults st) eqn:Hs; [|discriminate].
  destruct e; try (exfalso; apply He; reflexivity);
    unfold handle, onValueChange, handleCalculate; rewrite ?Hs; simpl;
    rewrite ?Hs; auto.
Qed.

(** C9: the UI is a two-state machine over Editing and Results.  The mode
    changes only from Editing to Results on Calculate and from Results to
    Editing on Reset; from a Results state, any sequence of events
    without Reset leaves the mode at Results and the inputs unchanged (the
    slider callbacks are refused while [showResults] holds). *)
Theorem ui_two_state_machine :
  (forall (st : UIState) (e : Event),
     mode (handle st e) <> mode st ->
     (mode st = Editing /\ e = Calculate /\ mode (handle st e) = Results)
     \/ (mode st = Results /\ e = Reset /\ mode (handle st e) = Editing))
  /\ (forall (st : UIState) (es : list Event),
     mode st = Results -> ~ In Reset es ->
     mode (run st es) = Results /\ inputs (run st es) = inputs st).
Proof.
  split.
  - intros st e Hne. unfold mode in *.
    destruct (showResults st) eqn:Hs;
      destruct e; unfold handle, onValueChange, handleCalculate, handleReset in *;
      rewrite ?Hs in *; simpl in *; rewrite ?Hs in *;
      try (exfalso; apply Hne; reflexivity); auto.
  - intros st es. revert st. induction es as [|e es IH]; intros st Hm Hin.
    + split; [exact Hm | reflexivity].
    + cbn [run]. cbn [In] in Hin.
      destruct (handle_results_frozen st e Hm) as [Hm' Hi'].
      { intro He. apply Hin. left. exact He. }
      destruct (IH (handle st e) Hm') as [Hm'' Hi''].
      { intro Hr. apply Hin. right. exact Hr. }
      split; [exact Hm'' | rewrite Hi'', Hi'; reflexivity].
Qed.

Lemma ui_two_state_machine_witness :
  ((mode initialState = Editing /\ Calculate = Calculate
      /\ mode (handle initialState Calculate) = Results)
   \/ (mode initialState = Results /\ Calculate = Reset
      /\ mode (handle initialState Calculate) = Editing))
  /\ mode (run (handle initialState Calculate)
             (cons (SlideHoursWorked 90) (cons (Share X) nil))) = Results
  /\ inputs (run (handle initialState Calculate)
               (cons (SlideHoursWorked 90) (cons (Share X) nil)))
     = inputs (handle initialState Calculate).
Proof.
  destruct ui_two_state_machine as [Hstep Hrun].
  split; [apply Hstep; discriminate|].
  apply (Hrun (handle initialState Calculate)
              (cons (SlideHoursWorked 90) (cons (Share X) nil))).
  - reflexivity.
  - simpl. intros [H|[H|H]]; [discriminate|discriminate|exact H].
Defined.

(** ** Share links *)

Example encode_sample :
  encodeURIComponent ("a b&" ++ String (ascii_of_nat 233) "(10)")
  = "a%20b%26%C3%A9(10)"%string.
Proof. reflexivity. Qed.

Lemma encodeChar_decodeChar (c : ascii) (r : string) :
  decodeChar (encodeChar c ++ r) = Some (c, r).
Proof. destruct c as [[] [] [] [] [] [] [] []]; reflexivity. Qed.

Lemma encodeChar_safe (c : ascii) :
  forallb uriSafe (list_ascii_of_string (encodeChar c)) = true.
Proof. destruct c as [[] [] [] [] [] [] [] []]; reflexivity. Qed.

Lemma encodeChar_nonempty (c : ascii) : encodeChar c <> EmptyString.
Proof. destruct c as [[] [] [] [] [] [] [] []]; discriminate. Qed.

Lemma list_ascii_of_string_app (s1 s2 : string) :
  list_ascii_of_string (s1 ++ s2)
  = (list_ascii_of_string s1 ++ list_ascii_of_string s2)%list.
Proof. induction s1 as [|c s1 IH]; simpl; [reflexivity | now rewrite IH]. Qed.

Lemma countChar_app (a : ascii) (s1 s2 : string) :
  countChar a (s1 ++ s2) = (countChar a s1 + countChar a s2)%nat.
Proof. induction s1 as [|c s1 IH]; simpl; [reflexivity | rewrite IH; lia]. Qed.

Lemma countChar_safe (a : ascii) (s : string) :
  uriSafe a = false -> forallb uriSafe (list_ascii_of_string s) = true ->
  countChar a s = 0%nat.
Proof.
  intros Ha. induction s as [|c s IH]; simpl; [reflexivity|].
  intros H. apply andb_true_iff in H as [Hc Hs].
  rewrite IH by exact Hs.
  destruct (Ascii.eqb c a) eqn:E; [|reflexivity].
  apply Ascii.eqb_eq in E. subst. congruence.
Qed.

(** X1: [encodeURIComponent] only ever emits unreserved characters and
    '%': no '&', '=', '?', '#', space or line break reaches a share
    link from the text or the page address. *)
Theorem encodeURIComponent_safe (s : string) :
  forallb uriSafe (list_ascii_of_string (encodeURIComponent s)) = true.
Proof.
  induction s as [|c s IH]; simpl; [reflexivity|].
  rewrite list_ascii_of_string_app, forallb_app, encodeChar_safe, IH.
  reflexivity.
Qed.

(** X2: [encodeURIComponent] is injective: two different texts (or page
    addresses) never give the same encoded parameter. *)
Theorem encodeURIComponent_injective (s1 s2 : string) :
  encodeURIComponent s1 = encodeURIComponent s2 -> s1 = s2.
Proof.
  revert s2. induction s1 as [|c1 s1 IH]; intros [|c2 s2] H; simpl in H.
  - reflexivity.
  - destruct (encodeChar c2) eqn:E; [now apply encodeChar_nonempty in E|discriminate].
  - destruct (encodeChar c1) eqn:E; [now apply encodeChar_nonempty in E|discriminate].
  - pose proof (f_equal decodeChar H) as D.
    rewrite !encodeChar_decodeChar in D. injection D as -> Hs.
    f_equal. apply IH. exact Hs.
Qed.

Lemma encodeURIComponent_injective_witness :
  encodeURIComponent "risk & score" = encodeURIComponent "risk & score"
  /\ "risk & score"%string = "risk & score"%string.
Proof.
  split; [reflexivity|].
  apply encodeURIComponent_injective. vm_compute. reflexivity.
Defined.

Lemma countChar_encode (a : ascii) (s : string) :
  uriSafe a = false -> countChar a (encodeURIComponent s) = 0%nat.
Proof. intro Ha. apply countChar_safe; [exact Ha | apply encodeURIComponent_safe]. Qed.

Ltac count_link :=
  cbv zeta; rewrite ?countChar_app, ?countChar_encode by reflexivity;
  reflexivity.

(** X3: whatever the share text and the page address, each of the three
    links [handleShare] opens has exactly one '?' and exactly one '&'
    (so exactly its two query parameters) and no '#', space or line
    break. *)
Theorem share_links_two_params (text url : string) :
  let amp := "&"%char in let qm := "?"%char in let hash := "#"%char in
  let sp := " "%char in let nl := ascii_of_nat 10 in
  (countChar qm (xShareUrl text url) = 1%nat
   /\ countChar amp (xShareUrl text url) = 1%nat
   /\ countChar hash (xShareUrl text url) = 0%nat
   /\ countChar sp (xShareUrl text url) = 0%nat
   /\ countChar nl (xShareUrl text url) = 0%nat)
  /\ (countChar qm (linkedinShareUrl text url) = 1%nat
   /\ countChar amp (linkedinShareUrl text url) = 1%nat
   /\ countChar hash (linkedinShareUrl text url) = 0%nat
   /\ countChar sp (linkedinShareUrl text url) = 0%nat
   /\ countChar nl (linkedinShareUrl text url) = 0%nat)
  /\ (countChar qm (mailtoUrl text url) = 1%nat
   /\ countChar amp (mailtoUrl text url) = 1%nat
   /\ countChar hash (mailtoUrl text url) = 0%nat
   /\ countChar sp (mailtoUrl text url) = 0%nat
   /\ countChar nl (mailtoUrl text url) = 0%nat).
Proof.
  cbv zeta. unfold xShareUrl, linkedinShareUrl, mailtoUrl.
  repeat split; count_link.
Qed.

(** ** The displayed score *)

Example toFixed1_samples :
  toFixed1 (915 # 100) = Some "9.2"%string /\ toFixed1 (125 # 1000) = Some "0.1"%string
  /\ toFixed1 10 = Some "10.0"%string /\ toFixed1 (-(1 # 20)) = Some "-0.1"%string
  /\ toFixed1 0 = Some "0.0"%string.
Proof. repeat split; reflexivity. Qed.

Lemma fixed1Check_upto_100 (k : nat) : (k <= 100)%nat -> fixed1Check k = true.
Proof.
  intro Hk.
  assert (Hall : forallb fixed1Check (seq 0 101) = true) by (vm_compute; reflexivity).
  rewrite forallb_forall in Hall. apply Hall. apply in_seq. lia.
Qed.

(** [x.toFixed(1)] for [x] in [0, 10]: "d.d" or "dd.d", within 0.05
    of [x]. *)
Lemma fixed1_display (x : Q) :
  0 <= x -> x <= 10 ->
  exists str : string,
    toFixed1 x = Some str
    /\ (String.length str = 3%nat \/ String.length str = 4%nat)
    /\ String.get (String.length str - 2) str = Some "."%char
    /\ x - (1 # 20) < readFixed1 str
    /\ readFixed1 str <= x + (1 # 20).
Proof.
  intros H0 H10.
  set (n := Qfloor (x * 10 + (1 # 2))).
  pose proof (Qfloor_le (x * 10 + (1 # 2))) as Hlo.
  pose proof (Qlt_floor (x * 10 + (1 # 2))) as Hhi.
  fold n in Hlo, Hhi. rewrite inject_Z_plus in Hhi.
  assert (Hn0 : (0 <= n)%Z).
  { rewrite Zle_Qle. apply Qnot_lt_le. intro Hlt.
    assert (Hm : inject_Z n <= inject_Z (-1)) by
      (rewrite <- Zle_Qle; rewrite <- Zlt_Qlt in Hlt; lia).
    change (inject_Z 1) with 1 in Hhi. change (inject_Z (-1)) with (-1) in Hm. lra. }
  assert (Hn100 : (n <= 100)%Z).
  { assert (Hlt : (n < 101)%Z) by (rewrite Zlt_Qlt; change (inject_Z 101) with 101; lra).
    lia. }
  assert (Hk : fixed1Check (Z.to_nat n) = true) by (apply fixed1Check_upto_100; lia).
  unfold fixed1Check in Hk. rewrite Z2Nat.id in Hk by exact Hn0.
  apply andb_true_iff in Hk as [Hk Hv]. apply andb_true_iff in Hk as [Hl Hd].
  apply Qeq_bool_iff in Hv.
  exists (fixed1OfZ n). split; [|split; [|split]].
  - unfold toFixed1. apply Qle_bool_iff in H0. rewrite H0.
    destruct (Qle_bool (inject_Z (10 ^ 21)) x) eqn:E.
    + apply Qle_bool_iff in E. change (inject_Z (10 ^ 21)) with (10 ^ 21 # 1) in E.
      exfalso. apply (Qlt_irrefl x). eapply Qlt_le_trans; [|exact E].
      eapply Qle_lt_trans; [exact H10|reflexivity].
    + reflexivity.
  - apply orb_true_iff in Hl as [Hl|Hl]; apply Nat.eqb_eq in Hl; [left|right]; exact Hl.
  - destruct (String.get _ _) as [c|]; [|discriminate].
    apply Ascii.eqb_eq in Hd. now subst.
  - rewrite Hv. unfold Qdiv. qconst. change (inject_Z 1) with 1 in Hhi. split; lra.
Qed.

(** X4: for every input triple of finite numbers, the number shown on
    the results card and in the share text,
    [calculateRiskScore(...).toFixed(1)], is a string of 3 or 4
    characters "d.d" or "dd.d", and read as a decimal it lies in
    (score - 0.05, score + 0.05] of the binary64 score. *)
Theorem displayed_score64_format (h s c : Q) :
  isDouble h = true -> isDouble s = true -> isDouble c = true ->
  exists (r : Q) (str : string),
    calculateRiskScore64 (mkInputs h s c) = Fin r
    /\ toFixed1 r = Some str
    /\ (String.length str = 3%nat \/ String.length str = 4%nat)
    /\ String.get (String.length str - 2) str = Some "."%char
    /\ r - (1 # 20) < readFixed1 str
    /\ readFixed1 str <= r + (1 # 20).
Proof.
  intros Hh Hs Hc.
  destruct (score64_bounds (mkInputs h s c)) as [H0 H10].
  destruct (fixed1_display _ H0 H10) as [str Hstr].
  exists (score64 (mkInputs h s c)), str. split; [| exact Hstr].
  apply calculateRiskScore64_value; assumption.
Qed.

Lemma displayed_score64_format_witness :
  exists (r : Q) (str : string),
    calculateRiskScore64 (mkInputs 0 0 (1 # 2)) = Fin r
    /\ toFixed1 r = Some str
    /\ (String.length str = 3%nat \/ String.length str = 4%nat)
    /\ String.get (String.length str - 2) str = Some "."%char
    /\ r - (1 # 20) < readFixed1 str
    /\ readFixed1 str <= r + (1 # 20).
Proof. apply displayed_score64_format; vm_compute; reflexivity. Defined.

(** At (0, 0, 0.5) the exact formula gives 5.85, shown "5.9"; the
    binary64 score is the double just below 5.85, shown "5.8". *)
Example displayed_score64_sample :
  (match calculateRiskScore64 (mkInputs 0 0 (1 # 2)) with
   | Fin r => toFixed1 r | _ => None end) = Some "5.8"%string
  /\ toFixed1 (riskScore_spec 0 0 (1 # 2)) = Some "5.9"%string.
Proof. split; vm_compute; reflexivity. Qed.

(** ** Share effects *)

(** X5: for the X, LinkedIn and email paths the image step changes
    nothing about the link opened: [handleShare] performs one navigation,
    the same whatever the image outcome, preceded by the error toast
    exactly when the rendering failed. *)
Theorem share_links_independent_of_image
  (st : UIState) (p : Platform) (href : string) :
  p <> Download ->
  exists nav : ShareEffect,
    forall img : ImageOutcome,
      handleShare st p img href
      = ((match img with RenderFailed => cons errorToast nil | _ => nil end)
         ++ cons nav nil)%list.
Proof.
  intro Hp. unfold handleShare.
  destruct p; [| | exfalso; apply Hp; reflexivity |];
    eexists; intros [|d|]; reflexivity.
Qed.

Lemma share_links_independent_of_image_witness :
  exists nav : ShareEffect,
    forall img : ImageOutcome,
      handleShare initialState Email img "https://example.com/"
      = ((match img with RenderFailed => cons errorToast nil | _ => nil end)
         ++ cons nav nil)%list.
Proof. apply share_links_independent_of_image. discriminate. Defined.

(** X6: [handleShare] starts a download only on the download path, only
    of a rendered non-empty image URL, and always under the name
    "burnout-assessment.png". *)
Theorem share_download_only_with_image
  (st : UIState) (p : Platform) (img : ImageOutcome) (href f d : string) :
  In (ClickDownload f d) (handleShare st p img href)
  <-> p = Download /\ img = Rendered d /\ d <> EmptyString
      /\ f = "burnout-assessment.png"%string.
Proof.
  unfold handleShare. destruct img as [|d'|]; cbn [renderImage app];
    destruct p; cbn [In];
    try (destruct (String.eqb d' EmptyString) eqn:E;
         [apply String.eqb_eq in E | apply String.eqb_neq in E]; cbn [In]);
    split; intros H; repeat destruct H as [H|H]; try discriminate; try contradiction;
    try (injection H; intros; subst; repeat split; (reflexivity || assumption));
    destruct H as (H1 & H2 & H3 & H4); try discriminate;
    injection H2; intros; subst; auto.
Qed.

(** ** Component behaviour *)

Lemma open_invariant_step (st : UIState) (e : Event) :
  isOpenChange e = false -> isOpen st = negb (showResults st) ->
  isOpen (handle st e) = negb (showResults (handle st e)).
Proof.
  intros He Hinv. destruct e; try discriminate;
    unfold handle, onValueChange, handleCalculate, handleReset;
    destruct (showResults st) eqn:Hs; simpl; rewrite ?Hs; auto.
Qed.

(** X7: the [Collapsible] has no trigger, so its [onOpenChange] is never
    called; along every such run from the initial state the slider panel
    is open exactly when no results are shown, and the render is either
    the editing view (sliders and "Calculate Risk") or the results view
    ("Ready to reassess?", "Reset Calculator" and the results). *)
Theorem rendered_views (es : list Event) :
  existsb isOpenChange es = false ->
  isOpen (run initialState es) = negb (showResults (run initialState es))
  /\ rendered (run initialState es)
     = if showResults (run initialState es)
       then cons ReassessHint (cons ResetButton (cons ResultsPanel nil))
       else cons SliderPanel (cons CalculateButton nil).
Proof.
  intros Hes.
  assert (Hinv : forall st, isOpen st = negb (showResults st) ->
            isOpen (run st es) = negb (showResults (run st es))).
  { induction es as [|e es IH]; intros st Hst; [exact Hst|].
    simpl in Hes. apply orb_false_iff in Hes as [He Hes'].
    simpl. apply IH; [exact Hes'|]. apply open_invariant_step; assumption. }
  specialize (Hinv initialState eq_refl).
  split; [exact Hinv|].
  unfold rendered. rewrite Hinv.
  destruct (showResults (run initialState es)); reflexivity.
Qed.

Lemma rendered_views_witness :
  isOpen (run initialState (cons (SlideSleepHours 6) (cons Calculate nil)))
  = negb (showResults (run initialState (cons (SlideSleepHours 6) (cons Calculate nil))))
  /\ rendered (run initialState (cons (SlideSleepHours 6) (cons Calculate nil)))
     = if showResults (run initialState (cons (SlideSleepHours 6) (cons Calculate nil)))
       then cons ReassessHint (cons ResetButton (cons ResultsPanel nil))
       else cons SliderPanel (cons CalculateButton nil).
Proof. apply rendered_views. reflexivity. Defined.

(** X8: while no results are shown and neither "Calculate Risk" nor
    reset runs, each field holds the value its own slider sent last, or
    its earlier value if that slider did not move: the three sliders
    write independent fields, every other event leaves the inputs alone,
    and the results stay hidden. *)
Theorem sliders_last_value (st : UIState) (es : list Event) :
  showResults st = false -> ~ In Calculate es -> ~ In Reset es ->
  inputs (run st es)
  = mkInputs (lastValue hoursOf (hoursWorked (inputs st)) es)
             (lastValue sleepOf (sleepHours (inputs st)) es)
             (lastValue selfCareOf (selfCareHours (inputs st)) es)
  /\ showResults (run st es) = false.
Proof.
  revert st. induction es as [|e es IH]; intros st Hs Hc Hr.
  - destruct st as [[h sl c] r o]. split; [reflexivity | exact Hs].
  - cbn [In] in Hc, Hr.
    assert (Hc' : ~ In Calculate es) by tauto.
    assert (Hr' : ~ In Reset es) by tauto.
    destruct e; cbn [run lastValue hoursOf sleepOf selfCareOf];
      try (exfalso; tauto);
      match goal with
      | |- context [run ?st' es] =>
          destruct (IH st' ltac:(unfold handle, onValueChange; rewrite ?Hs; reflexivity) Hc' Hr')
            as [Hi Hs']
      end;
      rewrite Hi; (split; [| exact Hs']);
      unfold handle, onValueChange; rewrite ?Hs; reflexivity.
Qed.

Lemma sliders_last_value_witness :
  inputs (run initialState
    (cons (SlideHoursWorked 55) (cons (OpenChange false) (cons (SlideSleepHours 6)
      (cons (Share X) (cons (SlideHoursWorked 70) nil))))))
  = mkInputs (lastValue hoursOf 40 (cons (SlideHoursWorked 55) (cons (OpenChange false)
                (cons (SlideSleepHours 6) (cons (Share X) (cons (SlideHoursWorked 70) nil))))))
             (lastValue sleepOf 7 (cons (SlideHoursWorked 55) (cons (OpenChange false)
                (cons (SlideSleepHours 6) (cons (Share X) (cons (SlideHoursWorked 70) nil))))))
             (lastValue selfCareOf 5 (cons (SlideHoursWorked 55) (cons (OpenChange false)
                (cons (SlideSleepHours 6) (cons (Share X) (cons (SlideHoursWorked 70) nil))))))
  /\ showResults (run initialState
    (cons (SlideHoursWorked 55) (cons (OpenChange false) (cons (SlideSleepHours 6)
      (cons (Share X) (cons (SlideHoursWorked 70) nil)))))) = false.
Proof.
  apply (sliders_last_value initialState); [reflexivity | |];
    cbn [In]; intro H; repeat destruct H as [H | H]; try discriminate; exact H.
Defined.

Lemma handleShare_inputs (st1 st2 : UIState) p img href :
  inputs st1 = inputs st2 -> handleShare st1 p img href = handleShare st2 p img href.
Proof. intro H. unfold handleShare. rewrite H. reflexivity. Qed.

Lemma run_frozen (st : UIState) (es : list Event) :
  mode st = Results -> ~ In Reset es ->
  mode (run st es) = Results /\ inputs (run st es) = inputs st.
Proof.
  revert st. induction es as [|e es IH]; intros st Hm Hin; [split; auto|].
  simpl in Hin |- *.
  destruct (handle_results_frozen st e Hm) as [Hm' Hi'];
    [intro He; apply Hin; left; exact He|].
  destruct (IH (handle st e) Hm') as [Hm'' Hi''];
    [intro He; apply Hin; right; exact He|].
  split; [exact Hm'' | congruence].
Qed.

(** X9: "Calculate Risk" freezes what the results show: after it, until
    the next reset, whatever events come, the inputs stay those at the
    click, the results stay shown, and every share action produces the
    same effects as it would have at the click (same level, same score
    text, same links). *)
Theorem calculate_freezes_results (st : UIState) (es : list Event) :
  ~ In Reset es ->
  inputs (run (handle st Calculate) es) = inputs st
  /\ mode (run (handle st Calculate) es) = Results
  /\ (forall p img href,
        handleShare (run (handle st Calculate) es) p img href
        = handleShare st p img href).
Proof.
  intro Hin.
  destruct (run_frozen (handle st Calculate) es eq_refl Hin) as [Hm Hi].
  split; [exact Hi|]. split; [exact Hm|].
  intros p img href. apply handleShare_inputs. exact Hi.
Qed.

Lemma calculate_freezes_results_witness :
  inputs (run (handle initialState Calculate)
              (cons (SlideHoursWorked 80) (cons (Share LinkedIn) nil)))
  = inputs initialState
  /\ mode (run (handle initialState Calculate)
              (cons (SlideHoursWorked 80) (cons (Share LinkedIn) nil))) = Results
  /\ (forall p img href,
        handleShare (run (handle initialState Calculate)
                         (cons (SlideHoursWorked 80) (cons (Share LinkedIn) nil))) p img href
        = handleShare initialState p img href).
Proof.
  apply calculate_freezes_results.
  simpl. intros [H|[H|H]]; [discriminate|discriminate|exact H].
Defined.

Lemma tierRank_mono (x y : Q) :
  x <= y -> (tierRank (level (getRiskLevel x)) <= tierRank (level (getRiskLevel y)))%nat.
Proof.
  intro H. unfold getRiskLevel.
  repeat case_qle; cbn; try lia; exfalso; lra.
Qed.

(** X10: on finite inputs the risk tier shown moves with the inputs:
    more hours worked never lowers it in the order Low, Moderate, High,
    and more sleep or more self-care never raises it. *)
Theorem risk_tier64_monotone :
  (forall h1 h2 s c : Q,
     isDouble h1 = true -> isDouble h2 = true -> isDouble s = true -> isDouble c = true ->
     h1 <= h2 ->
     exists r1 r2 : Q,
       calculateRiskScore64 (mkInputs h1 s c) = Fin r1
       /\ calculateRiskScore64 (mkInputs h2 s c) = Fin r2
       /\ (tierRank (level (getRiskLevel r1)) <= tierRank (level (getRiskLevel r2)))%nat)
  /\ (forall h s1 s2 c : Q,
     isDouble h = true -> isDouble s1 = true -> isDouble s2 = true -> isDouble c = true ->
     s1 <= s2 ->
     exists r1 r2 : Q,
       calculateRiskScore64 (mkInputs h s2 c) = Fin r1
       /\ calculateRiskScore64 (mkInputs h s1 c) = Fin r2
       /\ (tierRank (level (getRiskLevel r1)) <= tierRank (level (getRiskLevel r2)))%nat)
  /\ (forall h s c1 c2 : Q,
     isDouble h = true -> isDouble s = true -> isDouble c1 = true -> isDouble c2 = true ->
     c1 <= c2 ->
     exists r1 r2 : Q,
       calculateRiskScore64 (mkInputs h s c2) = Fin r1
       /\ calculateRiskScore64 (mkInputs h s c1) = Fin r2
       /\ (tierRank (level (getRiskLevel r1)) <= tierRank (level (getRiskLevel r2)))%nat).
Proof.
  repeat split; intros; do 2 eexists;
    (split; [apply calculateRiskScore64_value; eassumption |]);
    (split; [apply calculateRiskScore64_value; eassumption |]);
    apply tierRank_mono.
  - apply score64_mono_hours; assumption.
  - apply score64_anti_sleep; assumption.
  - apply score64_anti_selfCare; assumption.
Qed.

Lemma risk_tier64_monotone_witness :
  (exists r1 r2 : Q,
     calculateRiskScore64 (mkInputs 20 7 5) = Fin r1
     /\ calculateRiskScore64 (mkInputs 70 7 5) = Fin r2
     /\ (tierRank (level (getRiskLevel r1)) <= tierRank (level (getRiskLevel r2)))%nat)
  /\ (exists r1 r2 : Q,
     calculateRiskScore64 (mkInputs 40 9 5) = Fin r1
     /\ calculateRiskScore64 (mkInputs 40 4 5) = Fin r2
     /\ (tierRank (level (getRiskLevel r1)) <= tierRank (level (getRiskLevel r2)))%nat)
  /\ (exists r1 r2 : Q,
     calculateRiskScore64 (mkInputs 40 7 20) = Fin r1
     /\ calculateRiskScore64 (mkInputs 40 7 0) = Fin r2
     /\ (tierRank (level (getRiskLevel r1)) <= tierRank (level (getRiskLevel r2)))%nat).
Proof.
  destruct risk_tier64_monotone as [Hh [Hs Hc]].
  split; [|split].
  - apply Hh; try (vm_compute; reflexivity). vm_compute. discriminate.
  - apply Hs; try (vm_compute; reflexivity). vm_compute. discriminate.
  - apply Hc; try (vm_compute; reflexivity). vm_compute. discriminate.
Defined.
